(** * byo-bundler: a shallow embedding of [src/index.js] and its properties

    The bundler reads an entry file, loads every module it imports
    (through a process-wide [MODULE_CACHE]), rewrites the module interface
    of each script, and writes one [bundle.js] together with an
    [index.html].  The development follows the source top to bottom:
    JavaScript string primitives, Node's [path] functions, the Babel
    collaborator, the loader, the bundler, and the emitted runtime. *)

From stdpp Require Import base option list strings gmap fin_maps fin_sets.
From Stdlib Require Import Ascii Lia.

Set Warnings "-register-all,-clear-no-such-hyp".

(** ** JavaScript string primitives used by the source *)

Module JsString.

Definition slash : ascii := "/"%char.
Definition dot : ascii := "."%char.
Definition newline : ascii := "010"%char.

(** [s.split(sep)] for a one-character separator. *)
Fixpoint split (sep : ascii) (s : string) : list string :=
  match s with
  | EmptyString => [EmptyString]
  | String c s' =>
      if decide (c = sep) then EmptyString :: split sep s'
      else match split sep s' with
           | h :: t => String c h :: t
           | [] => [String c EmptyString]
           end
  end.

(** [parts.join(sep)]. *)
Fixpoint join (sep : string) (parts : list string) : string :=
  match parts with
  | [] => EmptyString
  | [p] => p
  | p :: rest => p +:+ sep +:+ join sep rest
  end.

(** [s[0] === c]. *)
Definition first_is (c : ascii) (s : string) : bool :=
  match s with
  | String c' _ => bool_decide (c' = c)
  | EmptyString => false
  end.

(** [pre] is a prefix of [s]; on success the rest of [s] is returned. *)
Fixpoint strip_prefix (pre s : string) : option string :=
  match pre, s with
  | EmptyString, _ => Some s
  | String a pre', String b s' =>
      if decide (a = b) then strip_prefix pre' s' else None
  | String _ _, EmptyString => None
  end.

(** [s.indexOf(pat)], returned as the text before and after the first
    occurrence. *)
Fixpoint cut (pat s : string) : option (string * string) :=
  match strip_prefix pat s with
  | Some rest => Some (EmptyString, rest)
  | None =>
      match s with
      | EmptyString => None
      | String c s' =>
          match cut pat s' with
          | Some (before, after) => Some (String c before, after)
          | None => None
          end
      end
  end.

(** [s.includes(pat)]. *)
Definition includes (pat s : string) : bool :=
  match cut pat s with Some _ => true | None => false end.

(** The replacement text of [String.prototype.replace] for a string
    pattern: [$$] is a dollar sign, [$&] the match, [$`] the text before
    it and [$'] the text after it; every other character stands for
    itself (there are no capture groups). *)
Fixpoint expand_replacement (matched before after repl : string) : string :=
  match repl with
  | EmptyString => EmptyString
  | String c r =>
      let literally := String c (expand_replacement matched before after r) in
      if decide (c = "$"%char) then
        match r with
        | String d r' =>
            let rest := expand_replacement matched before after r' in
            if decide (d = "$"%char) then String "$" rest
            else if decide (d = "&"%char) then matched +:+ rest
            else if decide (d = "`"%char) then before +:+ rest
            else if decide (d = "'"%char) then after +:+ rest
            else literally
        | EmptyString => literally
        end
      else literally
  end.

(** [s.replace(pat, repl)] with a string pattern: only the first
    occurrence is replaced, and a string without one is returned as is. *)
Definition replace (pat repl s : string) : string :=
  match cut pat s with
  | Some (before, after) =>
      before +:+ expand_replacement pat before after repl +:+ after
  | None => s
  end.

(** [s.replace(/\n/g, '')]. *)
Fixpoint remove_newlines (s : string) : string :=
  match s with
  | EmptyString => EmptyString
  | String c s' =>
      if decide (c = newline) then remove_newlines s'
      else String c (remove_newlines s')
  end.

(** [\s] on one-byte characters. *)
Definition is_space (c : ascii) : bool := Ascii.is_space c.

(** [s.trimLeft()]. *)
Fixpoint trimLeft (s : string) : string :=
  match s with
  | String c s' => if is_space c then trimLeft s' else s
  | EmptyString => EmptyString
  end.

(** [line.replace(new RegExp(`^\\s{${n}}`), '')]: the line loses its first
    [n] characters when all of them are white space, and is unchanged
    otherwise. *)
Fixpoint strip_spaces (n : nat) (line : string) : option string :=
  match n, line with
  | 0, _ => Some line
  | S n', String c rest => if is_space c then strip_spaces n' rest else None
  | S _, EmptyString => None
  end.

Definition unindent (n : nat) (line : string) : string :=
  default line (strip_spaces n line).

Definition nonempty (s : string) : bool :=
  match s with EmptyString => false | _ => true end.

End JsString.

(** ** Node's [path] module (POSIX flavour) *)

Module NodePath.
Import JsString.

(** The scan of [path.dirname]: [chars] are the characters at the indices
    [i, i-1, ..., 1], last first; the result is the index of the slash that
    ends the directory part. *)
Fixpoint dirname_scan (chars : list ascii) (i : nat) (matchedSlash : bool)
  : option nat :=
  match chars with
  | [] => None
  | c :: rest =>
      if decide (c = slash) then
        if matchedSlash then dirname_scan rest (pred i) true else Some i
      else dirname_scan rest (pred i) false
  end.

Definition chars (s : string) : list ascii := String.list_ascii_of_string s.
Definition text (l : list ascii) : string := String.string_of_list_ascii l.

(** [path.dirname(p)]. *)
Definition dirname (p : string) : string :=
  match chars p with
  | [] => "."
  | c0 :: tl =>
      let hasRoot := bool_decide (c0 = slash) in
      match dirname_scan (rev tl) (length tl) true with
      | None => if hasRoot then "/" else "."
      | Some e =>
          if hasRoot && bool_decide (e = 1) then "//"
          else text (take e (c0 :: tl))
      end
  end.

(** [normalizeString]: the segments of a path with [.] and empty segments
    dropped and [..] resolved against what precedes it; [acc] holds the
    segments kept so far, last first. *)
Fixpoint normalize_segments (allowAboveRoot : bool) (acc : list string)
         (segs : list string) : list string :=
  match segs with
  | [] => rev acc
  | seg :: rest =>
      if decide (seg = "") then normalize_segments allowAboveRoot acc rest
      else if decide (seg = ".") then normalize_segments allowAboveRoot acc rest
      else if decide (seg = "..") then
        match acc with
        | top :: acc' =>
            if decide (top = "..")
            then normalize_segments allowAboveRoot (".." :: acc) rest
            else normalize_segments allowAboveRoot acc' rest
        | [] =>
            if allowAboveRoot
            then normalize_segments allowAboveRoot [".."] rest
            else normalize_segments allowAboveRoot [] rest
        end
      else normalize_segments allowAboveRoot (seg :: acc) rest
  end.

Definition ends_with_slash (p : string) : bool :=
  match rev (chars p) with
  | c :: _ => bool_decide (c = slash)
  | [] => false
  end.

(** [path.normalize(p)]. *)
Definition normalize (p : string) : string :=
  if decide (p = "") then "."
  else
    let isAbsolute := first_is slash p in
    let trailingSeparator := ends_with_slash p in
    let body := join "/" (normalize_segments (negb isAbsolute) [] (split slash p)) in
    if decide (body = "") then
      if isAbsolute then "/" else if trailingSeparator then "./" else "."
    else
      let body' := if trailingSeparator then body +:+ "/" else body in
      if isAbsolute then "/" +:+ body' else body'.

(** [path.join(a, b)]. *)
Definition join2 (a b : string) : string :=
  let joined := JsString.join "/" (filter (λ s, s ≠ "") [a; b]) in
  if decide (joined = "") then "." else normalize joined.

(** The last portion of a path, trailing slashes ignored. *)
Definition basename (p : string) : string :=
  match filter (λ s, s ≠ "") (rev (split slash p)) with
  | b :: _ => b
  | [] => ""
  end.

(** Index of the last occurrence of [c] in [s]. *)
Fixpoint last_index (c : ascii) (s : string) : option nat :=
  match s with
  | EmptyString => None
  | String c' s' =>
      match last_index c s' with
      | Some i => Some (S i)
      | None => if decide (c' = c) then Some 0 else None
      end
  end.

Fixpoint drop_chars (n : nat) (s : string) : string :=
  match n, s with
  | 0, _ => s
  | S n', String _ s' => drop_chars n' s'
  | S _, EmptyString => EmptyString
  end.

(** [path.extname(p)]: from the last dot of the last portion to its end;
    empty when that portion has no dot, starts with its only dot, or is
    [..]. *)
Definition extname (p : string) : string :=
  let b := basename p in
  match last_index dot b with
  | None => ""
  | Some 0 => ""
  | Some i => if decide (b = "..") then "" else drop_chars i b
  end.

End NodePath.

(** ** The syntax tree of a script, as far as the bundler looks into it

    Node and field names are Babel's.  The fragment has the three kinds of
    import specifier, the export forms the visitors of
    [transformModuleInterface] handle, and expressions with function scopes,
    so that an imported name can be shadowed. *)

Module Ast.

Inductive expr :=
| Identifier (name : string)
| StringLiteral (value : string)
| NumericLiteral (value : nat)
| MemberExpression (object property : expr) (computed : bool)
| CallExpression (callee : expr) (arguments : list expr)
| BinaryExpression (operator : string) (left right : expr)
| AssignmentExpression (operator : string) (left right : expr)
| FunctionExpression (id : option string) (params : list string) (body : expr).

Inductive specifier :=
| ImportDefaultSpecifier (local : string)
| ImportSpecifier (imported local : string)
| ImportNamespaceSpecifier (local : string).

(** [export { local as exported }]. *)
Record export_specifier := ExportSpecifier { exported : string; local : expr }.

Inductive declaration :=
| FunctionDeclaration (id : string) (params : list string) (body : expr)
| VariableDeclaration (kind : string) (declarations : list (string * expr)).

Inductive statement :=
| ImportDeclaration (specifiers : list specifier) (source : string)
| ExpressionStatement (expression : expr)
| Declaration (d : declaration)
| ExportDefaultDeclaration (declaration : expr)
| ExportNamedDeclaration (declaration : option declaration)
                         (specifiers : list export_specifier).

Definition specifier_local (s : specifier) : string :=
  match s with
  | ImportDefaultSpecifier l => l
  | ImportSpecifier _ l => l
  | ImportNamespaceSpecifier l => l
  end.


(** *** References to a module-level binding

    [binding.referencePaths] of the binding [x] that an import makes in the
    program scope: the identifiers named [x] in expression position that no
    function rebinds, be it by a parameter or by its own name.  The property
    of a non-computed member access and the target of a plain assignment
    are not references. *)

Definition shadows (x : string) (id : option string) (params : list string) : bool :=
  bool_decide (id = Some x) || bool_decide (x ∈ params).

Fixpoint count_refs (x : string) (e : expr) : nat :=
  match e with
  | Identifier n => if decide (n = x) then 1 else 0
  | StringLiteral _ | NumericLiteral _ => 0
  | MemberExpression o p computed =>
      count_refs x o + (if computed then count_refs x p else 0)
  | CallExpression f args =>
      count_refs x f + sum_list (map (count_refs x) args)
  | BinaryExpression _ l r => count_refs x l + count_refs x r
  | AssignmentExpression _ l r =>
      match l with
      | Identifier _ => count_refs x r
      | _ => count_refs x l + count_refs x r
      end
  | FunctionExpression id params body =>
      if shadows x id params then 0 else count_refs x body
  end.

(** [referencePath.replaceWith(r)] at every reference to [x]. *)
Fixpoint replace_refs (x : string) (r : expr) (e : expr) : expr :=
  match e with
  | Identifier n => if decide (n = x) then r else e
  | StringLiteral _ | NumericLiteral _ => e
  | MemberExpression o p computed =>
      MemberExpression (replace_refs x r o)
                       (if computed then replace_refs x r p else p) computed
  | CallExpression f args =>
      CallExpression (replace_refs x r f) (map (replace_refs x r) args)
  | BinaryExpression op l r' =>
      BinaryExpression op (replace_refs x r l) (replace_refs x r r')
  | AssignmentExpression op l r' =>
      match l with
      | Identifier _ => AssignmentExpression op l (replace_refs x r r')
      | _ => AssignmentExpression op (replace_refs x r l) (replace_refs x r r')
      end
  | FunctionExpression id params body =>
      if shadows x id params then e
      else FunctionExpression id params (replace_refs x r body)
  end.

(** Every name an expression mentions, bound or free. *)
Fixpoint names (e : expr) : list string :=
  match e with
  | Identifier n => [n]
  | StringLiteral _ | NumericLiteral _ => []
  | MemberExpression o p _ => names o ++ names p
  | CallExpression f args => names f ++ concat (map names args)
  | BinaryExpression _ l r => names l ++ names r
  | AssignmentExpression _ l r => names l ++ names r
  | FunctionExpression id params body =>
      option_list id ++ params ++ names body
  end.

Definition declaration_names (d : declaration) : list string :=
  match d with
  | FunctionDeclaration id params body => id :: params ++ names body
  | VariableDeclaration _ ds => concat (map (λ d, d.1 :: names d.2) ds)
  end.

Definition statement_names (s : statement) : list string :=
  match s with
  | ImportDeclaration specs _ => map specifier_local specs
  | ExpressionStatement e => names e
  | Declaration d => declaration_names d
  | ExportDefaultDeclaration e => names e
  | ExportNamedDeclaration d specs =>
      from_option declaration_names [] d
      ++ concat (map (λ s, exported s :: names (local s)) specs)
  end.

Definition count_refs_declaration (x : string) (d : declaration) : nat :=
  match d with
  | FunctionDeclaration id params body =>
      if shadows x (Some id) params then 0 else count_refs x body
  | VariableDeclaration _ ds => sum_list (map (λ d, count_refs x d.2) ds)
  end.

Definition replace_refs_declaration (x : string) (r : expr) (d : declaration)
  : declaration :=
  match d with
  | FunctionDeclaration id params body =>
      if shadows x (Some id) params then d
      else FunctionDeclaration id params (replace_refs x r body)
  | VariableDeclaration kind ds =>
      VariableDeclaration kind (map (λ d, (d.1, replace_refs x r d.2)) ds)
  end.

Definition count_refs_statement (x : string) (s : statement) : nat :=
  match s with
  | ImportDeclaration _ _ => 0
  | ExpressionStatement e => count_refs x e
  | Declaration d => count_refs_declaration x d
  | ExportDefaultDeclaration e => count_refs x e
  | ExportNamedDeclaration d specs =>
      from_option (count_refs_declaration x) 0 d
      + sum_list (map (λ s, count_refs x (local s)) specs)
  end.

Definition replace_refs_statement (x : string) (r : expr) (s : statement)
  : statement :=
  match s with
  | ImportDeclaration _ _ => s
  | ExpressionStatement e => ExpressionStatement (replace_refs x r e)
  | Declaration d => Declaration (replace_refs_declaration x r d)
  | ExportDefaultDeclaration e => ExportDefaultDeclaration (replace_refs x r e)
  | ExportNamedDeclaration d specs =>
      ExportNamedDeclaration
        (replace_refs_declaration x r <$> d)
        (map (λ s, ExportSpecifier (exported s) (replace_refs x r (local s))) specs)
  end.

End Ast.

(** ** The collaborators: file contents aside, everything the bundler asks
    of Babel and of Node's module resolution *)

Class Host := {
  (** [babel.parseSync(text)]; [None] when it throws. *)
  parseSync : string → option (list Ast.statement);
  (** The [code] that [babel.transformFromAstSync] prints for a tree. *)
  generate : list Ast.statement → string;
  (** [scope.generateUidIdentifier('imported')], from the names in use. *)
  generateUid : list string → string;
  generateUid_fresh : ∀ used, generateUid used ∉ used;
  (** [require.resolve(request, { paths })]; [None] when it throws. *)
  require_resolve : string → list string → option string;
}.

(** ** Program state and the monad of the loader *)

(** A [Module] object is known by its place in the object store. *)
Abbreviation loc := nat (only parsing).

Inductive ModuleCls := JSModule | CSSModule.

Global Instance ModuleCls_eq_dec : EqDecision ModuleCls.
Proof. solve_decision. Defined.

(** The fields of a [Module]; [ast] and [dependencies] are [undefined] until
    they are assigned. *)
Record Module := mkModule {
  cls : ModuleCls;
  filePath : string;
  content : string;
  ast : option (list Ast.statement);
  dependencies : option (list loc);
}.

(** [MODULE_CACHE] is the [Map] at the top level of the script; [heap] holds
    the [Module] objects in allocation order; [files] is the disk. *)
Record state := mkState {
  MODULE_CACHE : gmap string loc;
  heap : list Module;
  files : gmap string string;
}.

Inductive error :=
| Error (message : string)            (* [throw new Error(message)] *)
| ENOENT (path : string)              (* [fs.readFileSync] of a missing file *)
| BabelSyntaxError (path : string)    (* [babel.parseSync] rejects the text *)
| MODULE_NOT_FOUND (request : string) (* [require.resolve] finds nothing *)
| TypeError (what : string).          (* a builder or callee got [undefined] *)

Inductive outcome (A : Type) :=
| Ok (a : A)
| Throw (e : error)
| OutOfFuel.
Arguments Ok {A} a.
Arguments Throw {A} e.
Arguments OutOfFuel {A}.

(** State passing with exceptions; a throw keeps the state reached. *)
Definition stateM (Σ A : Type) : Type := Σ → outcome A * Σ.

Definition ret {Σ A} (a : A) : stateM Σ A := λ σ, (Ok a, σ).
Definition throw {Σ A} (e : error) : stateM Σ A := λ σ, (Throw e, σ).
Definition out_of_fuel {Σ A} : stateM Σ A := λ σ, (OutOfFuel, σ).
Definition bind {Σ A B} (m : stateM Σ A) (k : A → stateM Σ B) : stateM Σ B :=
  λ σ, match m σ with
       | (Ok a, σ') => k a σ'
       | (Throw e, σ') => (Throw e, σ')
       | (OutOfFuel, σ') => (OutOfFuel, σ')
       end.
Definition get_state {Σ} : stateM Σ Σ := λ σ, (Ok σ, σ).
Definition lift_option {Σ A} (e : error) (o : option A) : stateM Σ A :=
  match o with Some a => ret a | None => throw e end.

Definition M (A : Type) : Type := stateM state A.

Notation "x <- m ;; k" := (bind m (λ x, k))
  (at level 100, m at next level, right associativity, only parsing).
Notation "m ;;; k" := (bind m (λ _, k))
  (at level 100, right associativity, only parsing).

Definition is_ok {A} (r : outcome A) : bool :=
  match r with Ok _ => true | _ => false end.
Definition is_out_of_fuel {A} (r : outcome A) : bool :=
  match r with OutOfFuel => true | _ => false end.

(** Field updates of the objects in the store. *)
Definition set_content (c : string) (m : Module) : Module :=
  mkModule (cls m) (filePath m) c (ast m) (dependencies m).
Definition set_ast (a : list Ast.statement) (m : Module) : Module :=
  mkModule (cls m) (filePath m) (content m) (Some a) (dependencies m).
Definition set_dependencies (d : list loc) (m : Module) : Module :=
  mkModule (cls m) (filePath m) (content m) (ast m) (Some d).

Definition update_module (this : loc) (f : Module → Module) : M unit :=
  λ σ, (Ok tt, mkState (MODULE_CACHE σ) (alter f this (heap σ)) (files σ)).

(** [new ModuleCls(...)] once its constructor has returned. *)
Definition alloc (m : Module) : M loc :=
  λ σ, (Ok (length (heap σ)),
        mkState (MODULE_CACHE σ) (heap σ ++ [m]) (files σ)).

(** [MODULE_CACHE.set(filePath, module)]. *)
Definition cache_set (p : string) (module : loc) : M unit :=
  λ σ, (Ok tt, mkState (<[p := module]> (MODULE_CACHE σ)) (heap σ) (files σ)).

(** [fs.readFileSync(path, 'utf-8')]. *)
Definition readFileSync (p : string) : M string :=
  λ σ, match files σ !! p with
       | Some text => (Ok text, σ)
       | None => (Throw (ENOENT p), σ)
       end.

(** [fs.writeFileSync(path, content, 'utf-8')]. *)
Definition writeFileSync (p text : string) : M unit :=
  λ σ, (Ok tt, mkState (MODULE_CACHE σ) (heap σ) (<[p := text]> (files σ))).

(** The double quote, for the texts the bundler prints. *)
Definition dq : string := String "034"%char EmptyString.
Definition nl : string := String JsString.newline EmptyString.

(** [trim(str)] of the source: drop the empty lines and remove from every
    line the indentation of the first one. *)
Definition trim (str : string) : string :=
  let lines := filter (λ l, l ≠ "") (JsString.split JsString.newline str) in
  let first := default "" (head lines) in
  let padLength := String.length first - String.length (JsString.trimLeft first) in
  JsString.join nl (map (JsString.unindent padLength) lines).

Definition outcome_bind {A B} (r : outcome A) (k : A → outcome B) : outcome B :=
  match r with
  | Ok a => k a
  | Throw e => Throw e
  | OutOfFuel => OutOfFuel
  end.

Definition lift_outcome {Σ A} (r : outcome A) : stateM Σ A := λ σ, (r, σ).

(** ** The visitors of [transformModuleInterface] *)

Module Transform.
Import Ast.

(** A place in [Program.body] during the traversal: a statement as parsed,
    or what a visitor has put there.  [Required] prints as
    [const newIdentifier = require(source)], [Assigned] as one
    [exports.name = value] statement per entry.  The identifiers [require]
    and [exports] of these statements are made by builder calls and are
    not references of the scope; the values are nodes of the parsed
    tree. *)
Inductive slot :=
| Untouched (s : statement)
| Required (newIdentifier source : string)
| Assigned (assignments : list (string * expr)).

Definition count_refs_slot (x : string) (sl : slot) : nat :=
  match sl with
  | Untouched s => count_refs_statement x s
  | Required _ _ => 0
  | Assigned l => sum_list (map (λ a, count_refs x a.2) l)
  end.

Definition replace_refs_slot (x : string) (r : expr) (sl : slot) : slot :=
  match sl with
  | Untouched s => Untouched (replace_refs_statement x r s)
  | Required _ _ => sl
  | Assigned l => Assigned (map (λ a, (a.1, replace_refs x r a.2)) l)
  end.

(** [specifier.isImportDefaultSpecifier() ? 'default' :
    specifier.get('imported.name').node]; a namespace specifier has no
    [imported], which leaves [undefined]. *)
Definition importedKey (s : specifier) : option string :=
  match s with
  | ImportDefaultSpecifier _ => Some "default"
  | ImportSpecifier imported _ => Some imported
  | ImportNamespaceSpecifier _ => None
  end.

(** [newIdentifier[importedKey]]. *)
Definition member (newIdentifier importedKey : string) : expr :=
  MemberExpression (Identifier newIdentifier) (StringLiteral importedKey) true.

(** The loop over [binding.referencePaths] for one specifier.
    [t.stringLiteral(undefined)] throws, which happens at the first
    reference of a namespace import. *)
Definition rewrite_specifier (newIdentifier : string) (slots : list slot)
           (s : specifier) : outcome (list slot) :=
  let x := specifier_local s in
  match importedKey s with
  | Some key => Ok (map (replace_refs_slot x (member newIdentifier key)) slots)
  | None =>
      if decide (sum_list (map (count_refs_slot x) slots) = 0) then Ok slots
      else Throw (TypeError "stringLiteral")
  end.

Fixpoint rewrite_specifiers (newIdentifier : string) (slots : list slot)
         (specifiers : list specifier) : outcome (list slot) :=
  match specifiers with
  | [] => Ok slots
  | s :: rest =>
      outcome_bind (rewrite_specifier newIdentifier slots s)
                   (λ slots', rewrite_specifiers newIdentifier slots' rest)
  end.

Section visitors.
Context `{Host}.

(** The traversal keeps the names that the program scope knows, which
    [generateUidIdentifier] avoids and extends, next to the slots. *)
Definition traversal : Type := list string * list slot.

Definition visit_ImportDeclaration (i : nat) (specifiers : list specifier)
           (source : string) (t : traversal) : outcome traversal :=
  let newIdentifier := generateUid t.1 in
  outcome_bind (rewrite_specifiers newIdentifier t.2 specifiers)
               (λ slots', Ok (newIdentifier :: t.1,
                              <[i := Required newIdentifier source]> slots')).

Definition visit_ExportDefaultDeclaration (i : nat) (declaration : expr)
           (t : traversal) : outcome traversal :=
  Ok (t.1, <[i := Assigned [("default", declaration)]]> t.2).

(** The [declarations] that the visitor of a named export collects. *)
Definition export_assignments (declaration : option declaration)
           (specifiers : list export_specifier) : list (string * expr) :=
  match declaration with
  | Some (FunctionDeclaration id params body) =>
      [(id, FunctionExpression (Some id) params body)]
  | Some (VariableDeclaration _ ds) => ds
  | None => map (λ s, (exported s, local s)) specifiers
  end.

Definition visit_ExportNamedDeclaration (i : nat)
           (declaration : option declaration)
           (specifiers : list export_specifier)
           (t : traversal) : outcome traversal :=
  Ok (t.1, <[i := Assigned (export_assignments declaration specifiers)]> t.2).

Definition visit (i : nat) (t : traversal) : outcome traversal :=
  match t.2 !! i with
  | Some (Untouched (ImportDeclaration specifiers source)) =>
      visit_ImportDeclaration i specifiers source t
  | Some (Untouched (ExportDefaultDeclaration declaration)) =>
      visit_ExportDefaultDeclaration i declaration t
  | Some (Untouched (ExportNamedDeclaration declaration specifiers)) =>
      visit_ExportNamedDeclaration i declaration specifiers t
  | _ => Ok t
  end.

(** The traversal of [Program.body]: [n] statements are left, the next
    one is at index [i]. *)
Fixpoint traverse (n i : nat) (t : traversal) : outcome traversal :=
  match n with
  | 0 => Ok t
  | S n' => outcome_bind (visit i t) (traverse n' (S i))
  end.

Definition render (sl : slot) : list statement :=
  match sl with
  | Untouched s => [s]
  | Required newIdentifier source =>
      [Declaration (VariableDeclaration "const"
         [(newIdentifier,
           CallExpression (Identifier "require") [StringLiteral source])])]
  | Assigned l =>
      map (λ a, ExpressionStatement
                  (AssignmentExpression "="
                     (MemberExpression (Identifier "exports")
                                       (Identifier a.1) false)
                     a.2)) l
  end.

(** The tree that [babel.transformFromAstSync] returns for the plugin. *)
Definition transformFromAst (body : list statement)
  : outcome (list statement) :=
  outcome_bind (traverse (length body) 0
                         (concat (map statement_names body), map Untouched body))
               (λ t, Ok (concat (map render t.2))).
End visitors.

End Transform.

(** ** Resolving a request *)

Import JsString NodePath.

(** The loop [for (let i = requesterParts.length - 1; i > 0; i--)]. *)
Fixpoint requestPaths_from (requesterParts : list string) (i : nat)
  : list string :=
  match i with
  | 0 => []
  | S i' =>
      (join "/" (take i requesterParts) +:+ "/node_modules")
        :: requestPaths_from requesterParts i'
  end.

Definition requestPaths (requester : string) : list string :=
  let requesterParts := split slash requester in
  requestPaths_from requesterParts (length requesterParts - 1).

Section Loader.
Context `{Host}.

Definition resolveRequest (requester requestPath : string) : outcome string :=
  if first_is dot requestPath then
    (* relative import *)
    Ok (join2 (dirname requester) requestPath)
  else
    (* absolute import *)
    match require_resolve requestPath (requestPaths requester) with
    | Some resolved => Ok resolved
    | None => Throw (MODULE_NOT_FOUND requestPath)
    end.

(** ** The loaders *)

(** The table [MODULE_LOADERS].  An extension is empty or starts with a
    dot, so that the lookup never reaches a property of
    [Object.prototype]. *)
Definition MODULE_LOADERS (fileExtension : string) : option ModuleCls :=
  if decide (fileExtension = ".css") then Some CSSModule
  else if decide (fileExtension = ".js") then Some JSModule
  else None.

(** [CSSModule.transform], as a function of the text read. *)
Definition CSSModule_transform (content : string) : string :=
  trim (join nl
    [ "";
      "      const content = '" +:+ remove_newlines content +:+ "';";
      "      const style = document.createElement('style');";
      "      style.type = 'text/css';";
      "      if (style.styleSheet) style.styleSheet.cssText = content;";
      "      else style.appendChild(document.createTextNode(content));";
      "      document.head.appendChild(style);";
      "    " ]).

(** [new ModuleCls(filePath)]: the constructor of [Module] reads the file
    and calls [transform], which only [CSSModule] overrides; the
    constructor of [JSModule] then parses.  The object enters the store
    when the constructor returns; one whose constructor throws is never
    seen again. *)
Definition construct (ModuleCls : ModuleCls) (filePath : string) : M loc :=
  content <- readFileSync filePath ;;
  match ModuleCls with
  | CSSModule =>
      alloc (mkModule CSSModule filePath (CSSModule_transform content) None None)
  | JSModule =>
      match parseSync content with
      | Some ast => alloc (mkModule JSModule filePath content (Some ast) None)
      | None => throw (BabelSyntaxError filePath)
      end
  end.

(** [this.ast.program.body.filter(node => node.type ===
    'ImportDeclaration')], each with its index in the body and its
    [source.value]. *)
Fixpoint importDeclarations (i : nat) (body : list Ast.statement)
  : list (nat * string) :=
  match body with
  | [] => []
  | Ast.ImportDeclaration _ source :: rest =>
      (i, source) :: importDeclarations (S i) rest
  | _ :: rest => importDeclarations (S i) rest
  end.

(** [importDeclaration.source.value = resolvedPath]. *)
Definition set_source (resolvedPath : string) (s : Ast.statement)
  : Ast.statement :=
  match s with
  | Ast.ImportDeclaration specifiers _ =>
      Ast.ImportDeclaration specifiers resolvedPath
  | _ => s
  end.

Definition set_source_at (i : nat) (resolvedPath : string) (m : Module)
  : Module :=
  match ast m with
  | Some body => set_ast (alter (set_source resolvedPath) i body) m
  | None => m
  end.

(** The loop of [findDependencies]; [createModule] is the function it
    calls back. *)
Fixpoint findDependencies_loop (createModule : string → M loc)
         (this : loc) (filePath : string) (imports : list (nat * string))
         (dependencies : list loc) : M (list loc) :=
  match imports with
  | [] => ret dependencies
  | (i, requestPath) :: rest =>
      resolvedPath <- lift_outcome (resolveRequest filePath requestPath) ;;
      dependency <- createModule resolvedPath ;;
      (* replace the request path to the resolved path *)
      update_module this (set_source_at i resolvedPath) ;;;
      findDependencies_loop createModule this filePath rest
                            (dependencies ++ [dependency])
  end.

Definition findDependencies (createModule : string → M loc) (this : loc)
  : M (list loc) :=
  σ <- get_state ;;
  match heap σ !! this with
  | Some m =>
      match ast m with
      | Some body =>
          findDependencies_loop createModule this (filePath m)
                                (importDeclarations 0 body) []
      | None => throw (TypeError "ast")
      end
  | None => throw (TypeError "this")
  end.

(** [module.initDependencies()], by the class of [module]. *)
Definition initDependencies (createModule : string → M loc)
           (ModuleCls : ModuleCls) (this : loc) : M unit :=
  match ModuleCls with
  | JSModule =>
      dependencies <- findDependencies createModule this ;;
      update_module this (set_dependencies dependencies)
  | CSSModule => update_module this (set_dependencies [])
  end.

Definition unsupported (fileExtension : string) : error :=
  Error ("Unsupported extension " +:+ dq +:+ fileExtension +:+ dq +:+ ".").

(** [MODULE_CACHE.get(filePath)] at the end of [createModule]. *)
Definition cache_get (filePath : string) : M loc :=
  σ <- get_state ;;
  lift_option (TypeError "module") (MODULE_CACHE σ !! filePath).

(** [createModule]; [fuel] bounds the depth of the recursion through
    [findDependencies]. *)
Fixpoint createModule (fuel : nat) (filePath : string) : M loc :=
  match fuel with
  | 0 => out_of_fuel
  | S fuel' =>
      σ <- get_state ;;
      match MODULE_CACHE σ !! filePath with
      | Some module => ret module
      | None =>
          let fileExtension := extname filePath in
          match MODULE_LOADERS fileExtension with
          | None => throw (unsupported fileExtension)
          | Some ModuleCls =>
              module <- construct ModuleCls filePath ;;
              cache_set filePath module ;;;
              initDependencies (createModule fuel') ModuleCls module ;;;
              cache_get filePath
          end
      end
  end.

Definition createDependencyGraph (fuel : nat) (entryFile : string) : M loc :=
  createModule fuel entryFile.

End Loader.

(** ** Bundling *)

Record outputFile := mkOutputFile { name : string; file_content : string }.

(** [collect] of [collectModules]: [modules] is the [Set], in insertion
    order; [fuel] bounds the depth of the recursion. *)
Fixpoint collect (fuel : nat) (heap : list Module) (module : loc)
         (modules : list loc) : outcome (list loc) :=
  match fuel with
  | 0 => OutOfFuel
  | S fuel' =>
      if decide (module ∈ modules) then Ok modules
      else
        match heap !! module ≫= dependencies with
        | Some deps =>
            foldl (λ acc dependency,
                     outcome_bind acc (collect fuel' heap dependency))
                  (Ok (modules ++ [module])) deps
        | None => Throw (TypeError "dependencies")
        end
  end.

Definition collectModules (fuel : nat) (heap : list Module) (graph : loc)
  : outcome (list loc) :=
  collect fuel heap graph [].

Section Bundler.
Context `{Host}.

(** [module.transformModuleInterface()], by the class of [module]. *)
Definition transformModuleInterface (this : loc) : M unit :=
  σ <- get_state ;;
  match heap σ !! this with
  | Some m =>
      match cls m with
      | CSSModule => ret tt
      | JSModule =>
          match ast m with
          | Some body =>
              ast' <- lift_outcome (Transform.transformFromAst body) ;;
              update_module this (set_ast ast') ;;;
              update_module this (set_content (generate ast'))
          | None => throw (TypeError "ast")
          end
      end
  | None => throw (TypeError "this")
  end.

Definition moduleMap_entry (filePath content : string) : string :=
  dq +:+ filePath +:+ dq +:+ ": function(exports, require) { "
     +:+ content +:+ nl +:+ " },".

Fixpoint toModuleMap_loop (modules : list loc) (moduleMap : string)
  : M string :=
  match modules with
  | [] => ret moduleMap
  | module :: rest =>
      transformModuleInterface module ;;;
      σ <- get_state ;;
      match heap σ !! module with
      | Some m =>
          toModuleMap_loop rest
            (moduleMap +:+ moduleMap_entry (filePath m) (content m))
      | None => throw (TypeError "module")
      end
  end.

Definition toModuleMap (modules : list loc) : M string :=
  moduleMap <- toModuleMap_loop modules "{" ;;
  ret (moduleMap +:+ "}").

Definition addRuntime (moduleMap entryPoint : string) : string :=
  trim (join nl
    [ "";
      "    const modules = " +:+ moduleMap +:+ ";";
      "    const entry = " +:+ dq +:+ entryPoint +:+ dq +:+ ";";
      "    function webpackStart({ modules, entry }) {";
      "      const moduleCache = {};";
      "      const require = moduleName => {";
      "        // if in cache, return the cached version";
      "        if (moduleCache[moduleName]) {";
      "          return moduleCache[moduleName];";
      "        }";
      "        const exports = {};";
      "        // this will prevent infinite " +:+ dq +:+ "require" +:+ dq +:+ " loop";
      "        // from circular dependencies";
      "        moduleCache[moduleName] = exports;";
      "    ";
      "        // " +:+ dq +:+ "require" +:+ dq +:+ "-ing the module,";
      "        // exported stuff will assigned to " +:+ dq +:+ "exports" +:+ dq;
      "        modules[moduleName](exports, require);";
      "        return moduleCache[moduleName];";
      "      };";
      "    ";
      "      // start the program";
      "      require(entry);";
      "    }";
      "";
      "    webpackStart({ modules, entry });";
      "    " ]).

Definition bundle (fuel : nat) (graph : loc) : M (list outputFile) :=
  σ <- get_state ;;
  modules <- lift_outcome (collectModules fuel (heap σ) graph) ;;
  moduleMap <- toModuleMap modules ;;
  σ' <- get_state ;;
  match head modules ≫= (heap σ' !!.) with
  | Some m0 =>
      let moduleCode := addRuntime moduleMap (filePath m0) in
      ret [mkOutputFile "bundle.js" moduleCode]
  | None => throw (TypeError "modules[0]")
  end.

Definition script_tag (f : outputFile) : string :=
  "<script src=" +:+ dq +:+ "/" +:+ name f +:+ dq +:+ "></script>".

(** [htmlTemplatePath] is [None] when the caller leaves it out:
    [fs.readFileSync(undefined)] throws. *)
Definition generateHTMLTemplate (htmlTemplatePath : option string)
           (outputFiles : list outputFile) : M outputFile :=
  match htmlTemplatePath with
  | None => throw (TypeError "path")
  | Some p =>
      htmlTemplate <- readFileSync p ;;
      let htmlTemplate :=
        replace "</body>"
                (join "" (map script_tag outputFiles) +:+ "</body>")
                htmlTemplate in
      ret (mkOutputFile "index.html" htmlTemplate)
  end.

Fixpoint write_all (outputFolder : string) (outputFiles : list outputFile)
  : M unit :=
  match outputFiles with
  | [] => ret tt
  | f :: rest =>
      writeFileSync (join2 outputFolder (name f)) (file_content f) ;;;
      write_all outputFolder rest
  end.

Definition build (fuel : nat) (entryFile outputFolder : string)
           (htmlTemplatePath : option string) : M unit :=
  (* build dependency graph *)
  graph <- createDependencyGraph fuel entryFile ;;
  (* bundle the asset *)
  outputFiles <- bundle fuel graph ;;
  html <- generateHTMLTemplate htmlTemplatePath outputFiles ;;
  let outputFiles := outputFiles ++ [html] in
  (* write to output folder *)
  write_all outputFolder outputFiles.

End Bundler.

(** ** What the style script of a stylesheet module does when it runs

    The script that [CSSModule.transform] prints is fixed but for the text
    between the quotes of its first line.  A single-quoted literal ends at
    the first quote; a line end inside it is a syntax error, and a backslash
    starts an escape, which is not modelled here. *)

Module StyleScript.




End StyleScript.

(** ** The runtime that [addRuntime] prints

    [webpackStart] holds [moduleCache] and [require].  A factory is the body
    of a module after [transformModuleInterface]: it binds the result of
    [require] calls, assigns properties of [exports], and reads properties
    of what it required; [console.log] stands for any effect that shows a
    value. *)

Module Runtime.

Inductive value :=
| VUndefined
| VNumber (n : nat)
| VString (s : string)
| VObject (l : loc)            (* an object made by [const exports = {}] *)
| VBuiltin (name : string).    (* a property of [Object.prototype] *)

Inductive rexpr :=
| Lit (v : value)
| Var (x : string)
| Member (x key : string).      (* [x[key]] *)

Inductive stmt :=
| ConstRequire (x moduleName : string)   (* [const x = require(moduleName)] *)
| ExportsAssign (key : string) (e : rexpr) (* [exports.key = e] *)
| ConsoleLog (e : rexpr).                (* [console.log(e)] *)

(** [calls] records every call of a factory, with the [exports] object it
    received. *)
Record rstate := mkRstate {
  moduleCache : gmap string loc;
  objects : list (gmap string value);
  calls : list (string * loc);
  console : list value;
}.

Definition R (A : Type) : Type := stateM rstate A.

(** The properties every object literal inherits. *)
Definition Object_prototype : list string :=
  [ "constructor"; "__defineGetter__"; "__defineSetter__"; "hasOwnProperty";
    "__lookupGetter__"; "__lookupSetter__"; "isPrototypeOf";
    "propertyIsEnumerable"; "toString"; "valueOf"; "__proto__";
    "toLocaleString" ].

(** [moduleCache[moduleName]]; [None] stands for [undefined]. *)
Definition moduleCache_get (moduleName : string) : R (option value) :=
  λ σ, (Ok (match moduleCache σ !! moduleName with
            | Some l => Some (VObject l)
            | None =>
                if decide (moduleName ∈ Object_prototype)
                then Some (VBuiltin moduleName) else None
            end), σ).

(** [const exports = {}]. *)
Definition new_object : R loc :=
  λ σ, (Ok (length (objects σ)),
        mkRstate (moduleCache σ) (objects σ ++ [∅]) (calls σ) (console σ)).

(** [moduleCache[moduleName] = exports]. *)
Definition moduleCache_set (moduleName : string) (exports : loc) : R unit :=
  λ σ, (Ok tt, mkRstate (<[moduleName := exports]> (moduleCache σ))
                        (objects σ) (calls σ) (console σ)).

Definition record_call (moduleName : string) (exports : loc) : R unit :=
  λ σ, (Ok tt, mkRstate (moduleCache σ) (objects σ)
                        (calls σ ++ [(moduleName, exports)]) (console σ)).

Definition set_property (l : loc) (key : string) (v : value) : R unit :=
  λ σ, (Ok tt, mkRstate (moduleCache σ)
                        (alter (<[key := v]>) l (objects σ))
                        (calls σ) (console σ)).

Definition log (v : value) : R unit :=
  λ σ, (Ok tt, mkRstate (moduleCache σ) (objects σ) (calls σ)
                        (console σ ++ [v])).

Definition eval (env : gmap string value) (e : rexpr) : R value :=
  match e with
  | Lit v => ret v
  | Var x => lift_option (Error (x +:+ " is not defined")) (env !! x)
  | Member x key =>
      match env !! x with
      | Some (VObject l) =>
          λ σ, (Ok (default VUndefined (objects σ !! l ≫= (.!! key))), σ)
      | Some VUndefined => throw (TypeError "property of undefined")
      | Some _ => ret VUndefined
      | None => throw (Error (x +:+ " is not defined"))
      end
  end.

(** The body of a factory, run with its [exports] and with [require]. *)
Fixpoint run_factory (require : string → R value) (exports : loc)
         (env : gmap string value) (body : list stmt) : R unit :=
  match body with
  | [] => ret tt
  | ConstRequire x moduleName :: rest =>
      v <- require moduleName ;;
      run_factory require exports (<[x := v]> env) rest
  | ExportsAssign key e :: rest =>
      v <- eval env e ;;
      set_property exports key v ;;;
      run_factory require exports env rest
  | ConsoleLog e :: rest =>
      v <- eval env e ;;
      log v ;;;
      run_factory require exports env rest
  end.

(** [require]; [fuel] bounds the depth of nested calls. *)
Fixpoint require (fuel : nat) (modules : gmap string (list stmt))
         (moduleName : string) : R value :=
  match fuel with
  | 0 => out_of_fuel
  | S fuel' =>
      cached <- moduleCache_get moduleName ;;
      match cached with
      | Some v =>
          (* if in cache, return the cached version *)
          ret v
      | None =>
          exports <- new_object ;;
          (* this will prevent infinite "require" loop
             from circular dependencies *)
          moduleCache_set moduleName exports ;;;
          match modules !! moduleName with
          | Some factory =>
              record_call moduleName exports ;;;
              run_factory (require fuel' modules) exports ∅ factory
          | None => throw (TypeError "modules[moduleName] is not a function")
          end ;;;
          v <- moduleCache_get moduleName ;;
          ret (default VUndefined v)
      end
  end.

(** [webpackStart({ modules, entry })]. *)
Definition webpackStart (fuel : nat) (modules : gmap string (list stmt))
           (entry : string) : outcome value * rstate :=
  require fuel modules entry (mkRstate ∅ [] [] []).

End Runtime.

(** ** A sample project

    Three scripts, two of which import each other, and a stylesheet.  The
    sample parser knows the texts of the sample files. *)

Module Sample.
Import Ast.

Definition index_js : string :=
  "import a from './a.js'; import './style.css'; console.log(a);".
Definition a_js : string :=
  "import { twice } from './b.js'; export default twice(21);".
Definition b_js : string :=
  "import a from './a.js'; export function twice(x) { return x + x; }".
Definition style_css : string :=
  "body { margin: 0 }" +:+ nl +:+ "p { color: red }".
Definition index_html : string :=
  "<html><body><div id='root'></div></body></html>".

Definition parse (text : string) : option (list statement) :=
  if decide (text = index_js) then
    Some [ ImportDeclaration [ImportDefaultSpecifier "a"] "./a.js";
           ImportDeclaration [] "./style.css";
           ExpressionStatement
             (CallExpression
                (MemberExpression (Identifier "console") (Identifier "log") false)
                [Identifier "a"]) ]
  else if decide (text = a_js) then
    Some [ ImportDeclaration [ImportSpecifier "twice" "twice"] "./b.js";
           ExportDefaultDeclaration
             (CallExpression (Identifier "twice") [NumericLiteral 21]) ]
  else if decide (text = b_js) then
    Some [ ImportDeclaration [ImportDefaultSpecifier "a"] "./a.js";
           ExportNamedDeclaration
             (Some (FunctionDeclaration "twice" ["x"]
                      (BinaryExpression "+" (Identifier "x") (Identifier "x"))))
             [] ]
  else None.

Fixpoint longest (l : list string) : nat :=
  match l with
  | [] => 0
  | x :: rest => String.length x `max` longest rest
  end.

Fixpoint underscores (n : nat) (s : string) : string :=
  match n with
  | 0 => s
  | S n' => String "_" (underscores n' s)
  end.

(** [_imported], or a longer name when that one is taken. *)
Definition uid (used : list string) : string :=
  if decide ("_imported" ∈ used) then underscores (S (longest used)) "imported"
  else "_imported".

Definition uid_fresh (used : list string) : uid used ∉ used.
Proof.
  unfold uid. case_decide; [|done].
  assert (∀ x, x ∈ used → String.length x ≤ longest used) as Hlong.
  { clear. induction used as [|y used IH]; intros x Hx; [by apply elem_of_nil in Hx|].
    apply elem_of_cons in Hx as [->|Hx]; simpl; [lia|]. apply IH in Hx. lia. }
  assert (∀ n s, String.length (underscores n s) = n + String.length s) as Hlen.
  { clear. induction n as [|n IH]; intros s; simpl; [done|]. by rewrite IH. }
  intros Hin. apply Hlong in Hin. rewrite Hlen in Hin. simpl in Hin. lia.
Qed.

Definition host : Host := {|
  parseSync := parse;
  generate := λ body, "/* " +:+ "code of " +:+ "a tree */";
  generateUid := uid;
  generateUid_fresh := uid_fresh;
  require_resolve := λ request paths, None;
|}.

Definition disk : gmap string string :=
  {[ "/proj/src/index.js" := index_js;
     "/proj/src/a.js" := a_js;
     "/proj/src/b.js" := b_js;
     "/proj/src/style.css" := style_css;
     "/proj/index.html" := index_html ]}.

(** The state in which the script starts: nothing cached, nothing
    allocated. *)
Definition start : state := mkState ∅ [] disk.

(** Two factories that require each other: [a.js] sets [early], requires
    [b.js], then sets [late]; [b.js] requires [a.js] back and copies both
    properties, which [a.js] then prints. *)
Definition cycle_modules : gmap string (list Runtime.stmt) :=
  {[ "/proj/src/a.js" :=
       [ Runtime.ExportsAssign "early" (Runtime.Lit (Runtime.VNumber 1));
         Runtime.ConstRequire "_imported" "/proj/src/b.js";
         Runtime.ExportsAssign "late" (Runtime.Lit (Runtime.VNumber 2));
         Runtime.ConsoleLog (Runtime.Member "_imported" "sawEarly");
         Runtime.ConsoleLog (Runtime.Member "_imported" "sawLate") ];
     "/proj/src/b.js" :=
       [ Runtime.ConstRequire "_imported" "/proj/src/a.js";
         Runtime.ExportsAssign "sawEarly" (Runtime.Member "_imported" "early");
         Runtime.ExportsAssign "sawLate" (Runtime.Member "_imported" "late") ] ]}.

End Sample.

(** * Properties *)

(** ** The loader: frame, well-formedness and termination *)

Ltac invert H := inversion H; clear H; subst.

Section LoaderFacts.
Context `{Host}.

Definition same_identity (m m' : Module) : Prop :=
  cls m' = cls m ∧ filePath m' = filePath m ∧ content m' = content m.

(** What a call of [createModule] may change: it adds cache entries and
    objects, and leaves the disk and the older objects alone. *)
Definition grows (σ σ' : state) : Prop :=
  files σ' = files σ
  ∧ MODULE_CACHE σ ⊆ MODULE_CACHE σ'
  ∧ length (heap σ) ≤ length (heap σ')
  ∧ ∀ i, i < length (heap σ) → heap σ' !! i = heap σ !! i.

(** The same for the methods run by the object [this], which assign its
    [ast] and [dependencies]. *)
Definition grows_but (this : loc) (σ σ' : state) : Prop :=
  files σ' = files σ
  ∧ MODULE_CACHE σ ⊆ MODULE_CACHE σ'
  ∧ length (heap σ) ≤ length (heap σ')
  ∧ (∀ i, i < length (heap σ) → i ≠ this → heap σ' !! i = heap σ !! i)
  ∧ ∀ m, heap σ !! this = Some m →
         ∃ m', heap σ' !! this = Some m' ∧ same_identity m m'.

Lemma grows_refl σ : grows σ σ.
Proof. by repeat split. Qed.

Lemma grows_but_refl this σ : grows_but this σ σ.
Proof. repeat split; eauto. intros m ?. by exists m. Qed.

Lemma grows_trans σ1 σ2 σ3 : grows σ1 σ2 → grows σ2 σ3 → grows σ1 σ3.
Proof.
  intros (F1 & C1 & L1 & U1) (F2 & C2 & L2 & U2).
  repeat split; [congruence | by etrans | lia |].
  intros i Hi. rewrite U2 by lia. by apply U1.
Qed.

Lemma grows_but_trans this σ1 σ2 σ3 :
  grows_but this σ1 σ2 → grows_but this σ2 σ3 → grows_but this σ1 σ3.
Proof.
  intros (F1 & C1 & L1 & U1 & T1) (F2 & C2 & L2 & U2 & T2).
  repeat split; [congruence | by etrans | lia | |].
  - intros i Hi Hne. rewrite U2 by (done || lia). by apply U1.
  - intros m Hm. destruct (T1 m Hm) as (m' & Hm' & S1).
    destruct (T2 m' Hm') as (m'' & Hm'' & S2).
    exists m''. split; [done|].
    destruct S1 as (?&?&?), S2 as (?&?&?). repeat split; congruence.
Qed.

Lemma grows_grows_but this σ σ' :
  this < length (heap σ) → grows σ σ' → grows_but this σ σ'.
Proof.
  intros Hlt (F & C & L & U). repeat split; eauto.
  intros m Hm. exists m. rewrite U by done. by repeat split.
Qed.

Lemma grows_then_but this σ1 σ2 σ3 :
  length (heap σ1) ≤ this →
  grows σ1 σ2 → grows_but this σ2 σ3 → grows σ1 σ3.
Proof.
  intros Hle (F1 & C1 & L1 & U1) (F2 & C2 & L2 & U2 & _).
  repeat split; [congruence | by etrans | lia |].
  intros i Hi. rewrite U2 by lia. by apply U1.
Qed.

Lemma update_module_grows_but this f σ :
  (∀ m, same_identity m (f m)) →
  grows_but this σ (update_module this f σ).2.
Proof.
  intros Hf. repeat split; simpl; eauto.
  - by rewrite length_alter.
  - intros j _ Hne. by rewrite list_lookup_alter_ne.
  - intros m Hm. rewrite list_lookup_alter_eq, Hm. simpl. eauto.
Qed.

Lemma set_source_at_identity i q m : same_identity m (set_source_at i q m).
Proof. unfold set_source_at. destruct (ast m); by repeat split. Qed.

Lemma set_dependencies_identity d m : same_identity m (set_dependencies d m).
Proof. by repeat split. Qed.

(** The callback of a loop satisfies [grows]. *)
Definition callback_grows (create : string → M loc) : Prop :=
  ∀ q σ r σ', create q σ = (r, σ') → grows σ σ'.

Lemma findDependencies_loop_grows create this fp imports :
  callback_grows create →
  ∀ deps σ r σ',
    this < length (heap σ) →
    findDependencies_loop create this fp imports deps σ = (r, σ') →
    grows_but this σ σ'.
Proof.
  intros Hc. induction imports as [|[i req] rest IH]; intros deps σ r σ' Hlt Hrun.
  - invert Hrun. apply grows_but_refl.
  - simpl in Hrun. unfold bind, lift_outcome in Hrun.
    destruct (resolveRequest fp req) as [q| |]; try (invert Hrun; apply grows_but_refl).
    destruct (create q σ) as [[l| |] σ1] eqn:E; apply Hc in E;
      try (invert Hrun; by apply grows_grows_but).
    eapply grows_but_trans; [by apply grows_grows_but|].
    eapply grows_but_trans;
      [apply (update_module_grows_but this), set_source_at_identity|].
    eapply IH; [|exact Hrun]. simpl. rewrite length_alter.
    destruct E as (_ & _ & ? & _). lia.
Qed.

Lemma initDependencies_grows create c this σ r σ' :
  callback_grows create →
  this < length (heap σ) →
  initDependencies create c this σ = (r, σ') →
  grows_but this σ σ'.
Proof.
  intros Hc Hlt Hrun. destruct c; simpl in Hrun.
  - unfold findDependencies in Hrun. unfold bind, get_state in Hrun.
    destruct (heap σ !! this) as [m|]; [|invert Hrun; apply grows_but_refl].
    destruct (ast m) as [body|]; [|invert Hrun; apply grows_but_refl].
    destruct (findDependencies_loop _ _ _ _ _ σ) as [r1 σ1] eqn:E.
    eapply findDependencies_loop_grows in E; [|done..].
    destruct r1; invert Hrun; try done.
    eapply grows_but_trans; [exact E|].
    apply (update_module_grows_but this), set_dependencies_identity.
  - invert Hrun. apply (update_module_grows_but this), set_dependencies_identity.
Qed.

Lemma createModule_S n p σ :
  createModule (S n) p σ =
    match MODULE_CACHE σ !! p with
    | Some l => (Ok l, σ)
    | None =>
        match MODULE_LOADERS (extname p) with
        | None => (Throw (unsupported (extname p)), σ)
        | Some c =>
            match construct c p σ with
            | (Ok l, σ1) =>
                bind (initDependencies (createModule n) c l)
                     (λ _, cache_get p) (cache_set p l σ1).2
            | (Throw e, σ1) => (Throw e, σ1)
            | (OutOfFuel, σ1) => (OutOfFuel, σ1)
            end
        end
    end.
Proof.
  simpl. unfold bind at 1, get_state.
  destruct (MODULE_CACHE σ !! p); [done|].
  destruct (MODULE_LOADERS (extname p)); [|done].
  unfold bind at 1. by destruct (construct _ p σ) as [[]].
Qed.

(** [new ModuleCls(filePath)] either throws and leaves the state as it
    was, or appends one object. *)
Lemma construct_inv c p σ r σ' :
  construct c p σ = (r, σ') →
  (∃ e, r = Throw e ∧ σ' = σ
        ∧ (files σ !! p = None ∧ e = ENOENT p
           ∨ ∃ text, files σ !! p = Some text ∧ c = JSModule
                     ∧ parseSync text = None ∧ e = BabelSyntaxError p))
  ∨ (∃ text m, files σ !! p = Some text
       ∧ r = Ok (length (heap σ))
       ∧ σ' = mkState (MODULE_CACHE σ) (heap σ ++ [m]) (files σ)
       ∧ cls m = c ∧ filePath m = p ∧ dependencies m = None
       ∧ match c with
         | CSSModule => content m = CSSModule_transform text ∧ ast m = None
         | JSModule => content m = text ∧ ast m = parseSync text
                       ∧ is_Some (parseSync text)
         end).
Proof.
  unfold construct, bind, readFileSync. intros Hrun.
  destruct (files σ !! p) as [text|] eqn:Hf.
  - destruct c.
    + destruct (parseSync text) as [body|] eqn:Hp.
      * invert Hrun. right. eexists text, _. simpl.
        rewrite Hp. repeat split; eauto.
      * invert Hrun. left. eexists. repeat split. right. by exists text.
    + invert Hrun. right. eexists text, _. simpl. repeat split; eauto.
  - invert Hrun. left. eexists. repeat split. by left.
Qed.

Lemma cache_get_state p σ r σ' : cache_get p σ = (r, σ') → σ' = σ.
Proof.
  unfold cache_get, bind, get_state, lift_option.
  destruct (MODULE_CACHE σ !! p); by inversion 1.
Qed.

Lemma createModule_grows n : callback_grows (createModule n).
Proof.
  induction n as [|n IH]; intros p σ r σ' Hrun.
  - invert Hrun. apply grows_refl.
  - rewrite createModule_S in Hrun.
    destruct (MODULE_CACHE σ !! p) as [l|] eqn:Hc.
    { invert Hrun. apply grows_refl. }
    destruct (MODULE_LOADERS (extname p)) as [c|].
    2: { invert Hrun. apply grows_refl. }
    destruct (construct c p σ) as [r1 σ1] eqn:E1.
    apply construct_inv in E1 as [(e & -> & -> & _)|(text & m & Hf & -> & -> & Hm)].
    { invert Hrun. apply grows_refl. }
    simpl in Hrun. set (σ2 := mkState _ _ _) in Hrun.
    assert (G2 : grows σ σ2).
    { repeat split; simpl; [by apply insert_subseteq | rewrite length_app; lia |].
      intros i Hi. by rewrite lookup_app_l. }
    unfold bind in Hrun.
    destruct (initDependencies _ _ _ σ2) as [r3 σ3] eqn:E3.
    apply initDependencies_grows in E3; [|done|].
    2: { simpl. rewrite length_app. simpl. lia. }
    assert (grows σ σ3) by (eapply grows_then_but; [|done..]; done).
    destruct r3; [|by invert Hrun..].
    by apply cache_get_state in Hrun as ->.
Qed.


(** *** Termination *)

(** The files that are not in the cache yet. *)
Definition unloaded (σ : state) : gset string :=
  dom (files σ) ∖ dom (MODULE_CACHE σ).

Lemma unloaded_grows σ σ' :
  files σ' = files σ → MODULE_CACHE σ ⊆ MODULE_CACHE σ' →
  size (unloaded σ') ≤ size (unloaded σ).
Proof.
  intros F C. apply subseteq_size. unfold unloaded. rewrite F.
  apply subseteq_dom in C. set_solver.
Qed.

Definition callback_returns (n : nat) (create : string → M loc) : Prop :=
  ∀ q σ r σ', size (unloaded σ) < n → create q σ = (r, σ') → r ≠ OutOfFuel.

Lemma findDependencies_loop_returns n create this fp imports :
  callback_grows create → callback_returns n create →
  ∀ deps σ r σ',
    size (unloaded σ) < n →
    findDependencies_loop create this fp imports deps σ = (r, σ') →
    r ≠ OutOfFuel.
Proof.
  intros Hg Hc. induction imports as [|[i req] rest IH]; intros deps σ r σ' Hlt Hrun.
  - by invert Hrun.
  - simpl in Hrun. unfold bind, lift_outcome in Hrun.
    destruct (resolveRequest fp req) as [q| |] eqn:Eq; try by invert Hrun.
    { destruct (create q σ) as [[l| |] σ1] eqn:E.
      - eapply IH; [|exact Hrun]. simpl.
        apply Hg in E as (F & C & _). pose proof (unloaded_grows _ _ F C).
        unfold unloaded in *. simpl. lia.
      - by invert Hrun.
      - by apply Hc in E. }
    unfold resolveRequest in Eq. destruct (first_is dot req); [done|].
    by destruct (require_resolve _ _).
Qed.

Lemma createModule_returns n : callback_returns n (createModule n).
Proof.
  induction n as [|n IH]; intros p σ r σ' Hlt Hrun; [lia|].
  rewrite createModule_S in Hrun.
  destruct (MODULE_CACHE σ !! p) as [l|] eqn:Hc; [by invert Hrun|].
  destruct (MODULE_LOADERS (extname p)) as [c|]; [|by invert Hrun].
  destruct (construct c p σ) as [r1 σ1] eqn:E1.
  apply construct_inv in E1 as [(e & -> & -> & _)|(text & m & Hf & -> & -> & Hm)];
    [by invert Hrun|].
  simpl in Hrun. set (σ2 := mkState _ _ _) in Hrun.
  assert (L2 : size (unloaded σ2) < n).
  { assert (unloaded σ2 ⊂ unloaded σ) as Hsub; [|apply subset_size in Hsub; lia].
    unfold unloaded, σ2. simpl. rewrite dom_insert_L.
    assert (p ∈ dom (files σ)) by (apply elem_of_dom; eauto).
    assert (p ∉ dom (MODULE_CACHE σ)) by by apply not_elem_of_dom.
    set_solver. }
  unfold bind in Hrun.
  destruct (initDependencies _ _ _ σ2) as [r3 σ3] eqn:E3.
  assert (r3 ≠ OutOfFuel).
  { destruct c; simpl in E3.
    - unfold findDependencies in E3. unfold bind, get_state in E3.
      destruct (heap σ2 !! _) as [m2|]; [|by invert E3].
      destruct (ast m2); [|by invert E3].
      destruct (findDependencies_loop _ _ _ _ _ σ2) as [r4 σ4] eqn:E4.
      eapply findDependencies_loop_returns in E4;
        [|apply createModule_grows|apply IH|done].
      destruct r4; by invert E3.
    - by invert E3. }
  destruct r3; [|by invert Hrun|done].
  unfold cache_get, bind, get_state, lift_option in Hrun.
  destruct (MODULE_CACHE σ3 !! p); by invert Hrun.
Qed.

(** C1. Loading terminates on every import graph, cyclic ones included:
    with more fuel than there are files outside the cache, [createModule]
    never runs out of fuel.  A path that is in the cache already, be its
    module fully initialised or not, is answered with the cached object and
    nothing else happens; and a new module is in the cache before its
    dependencies are loaded. *)
Theorem createModule_terminates (fuel : nat) (filePath : string) (σ : state) :
  size (unloaded σ) < fuel →
  (createModule fuel filePath σ).1 ≠ OutOfFuel
  ∧ (∀ module, MODULE_CACHE σ !! filePath = Some module →
               createModule fuel filePath σ = (Ok module, σ))
  ∧ (∀ ModuleCls module σ1,
       MODULE_CACHE σ !! filePath = None →
       MODULE_LOADERS (extname filePath) = Some ModuleCls →
       construct ModuleCls filePath σ = (Ok module, σ1) →
       ∃ σ2, MODULE_CACHE σ2 !! filePath = Some module
             ∧ createModule fuel filePath σ
               = bind (initDependencies (createModule (pred fuel)) ModuleCls module)
                      (λ _, cache_get filePath) σ2).
Proof.
  intros Hfuel. split; [|split].
  - destruct (createModule fuel filePath σ) as [r σ'] eqn:E.
    by apply createModule_returns in E.
  - intros module Hc. destruct fuel as [|n]; [lia|].
    by rewrite createModule_S, Hc.
  - intros c module σ1 Hc Hl Hnew. destruct fuel as [|n]; [lia|].
    exists (cache_set filePath module σ1).2. split.
    + simpl. apply lookup_insert_eq.
    + by rewrite createModule_S, Hc, Hl, Hnew.
Qed.

End LoaderFacts.

Lemma createModule_terminates_witness :
  (@createModule Sample.host 6 "/proj/src/index.js" Sample.start).1 ≠ OutOfFuel.
Proof.
  apply (@createModule_terminates Sample.host 6 "/proj/src/index.js" Sample.start).
  vm_compute. lia.
Defined.

(** ** The build: what it leaves of the cache and of the disk *)

Section BuildFacts.
Context `{Host}.










End BuildFacts.

(** ** Facts about the string primitives *)

Lemma append_cons (x : ascii) (a b : string) :
  String x a +:+ b = String x (a +:+ b).
Proof. reflexivity. Qed.

Lemma append_nil_l (b : string) : "" +:+ b = b.
Proof. reflexivity. Qed.

Lemma append_assoc (a b c : string) : (a +:+ b) +:+ c = a +:+ b +:+ c.
Proof.
  induction a as [|x a IH]; [done|]. by rewrite !append_cons, IH.
Qed.

Lemma append_nil_r (a : string) : a +:+ "" = a.
Proof. induction a as [|x a IH]; [done|]. by rewrite append_cons, IH. Qed.


Lemma strip_prefix_app pre rest : strip_prefix pre (pre +:+ rest) = Some rest.
Proof.
  induction pre as [|a pre IH]; [done|].
  rewrite append_cons. simpl. by rewrite decide_True.
Qed.


Lemma cut_app pat a c : is_Some (cut pat (a +:+ pat +:+ c)).
Proof.
  induction a as [|x a IH].
  - rewrite append_nil_l.
    assert (cut pat (pat +:+ c) = Some ("", c)) as ->; [|done].
    destruct (pat +:+ c) eqn:E; simpl; rewrite <- E, strip_prefix_app; done.
  - rewrite append_cons. simpl. destruct (strip_prefix pat _); [done|].
    by destruct IH as [[b a'] ->].
Qed.

Lemma includes_app pat a c : includes pat (a +:+ pat +:+ c) = true.
Proof. unfold includes. by destruct (cut_app pat a c) as [? ->]. Qed.

(** A text without a dollar sign is a replacement text for itself. *)
Fixpoint has_char (c : ascii) (s : string) : bool :=
  match s with
  | EmptyString => false
  | String c' s' => bool_decide (c' = c) || has_char c s'
  end.



(** ** Failures of the loader and of the build *)

Section FailureFacts.
Context `{Host}.




(** C7, as amended.  A path whose extension has no loader makes
    [createModule] throw an error whose message names the extension, and
    the state stays as it was.  An error thrown while the graph is built,
    by the entry or by any module behind it, ends [build] with that error
    before anything is written. *)
Theorem unsupported_extension_aborts (fuel : nat) (filePath : string)
        (outputFolder : string) (htmlTemplatePath : option string)
        (σ : state) :
  MODULE_LOADERS (extname filePath) = None →
  MODULE_CACHE σ !! filePath = None →
  let message :=
    "Unsupported extension " +:+ dq +:+ extname filePath +:+ dq +:+ "." in
  createModule (S fuel) filePath σ = (Throw (Error message), σ)
  ∧ includes (extname filePath) message = true
  ∧ build (S fuel) filePath outputFolder htmlTemplatePath σ
    = (Throw (Error message), σ)
  ∧ ∀ entryFile e σ',
      createModule fuel entryFile σ = (Throw e, σ') →
      build fuel entryFile outputFolder htmlTemplatePath σ = (Throw e, σ')
      ∧ files σ' = files σ.
Proof.
  intros Hl Hc message.
  assert (createModule (S fuel) filePath σ = (Throw (Error message), σ)) as E.
  { by rewrite createModule_S, Hc, Hl. }
  split_and!; [done| | |].
  - unfold message. rewrite <- (append_assoc "Unsupported extension " dq).
    apply includes_app.
  - unfold build, bind, createDependencyGraph. by rewrite E.
  - intros entryFile e σ' E'. split.
    + unfold build, bind, createDependencyGraph. by rewrite E'.
    + by apply createModule_grows in E' as (? & _).
Qed.


End FailureFacts.

(** ** The artifacts of a build *)

Section ArtifactFacts.
Context `{Host}.







End ArtifactFacts.

(** ** The sample project at work *)


(** C7 as stated fails: the message for [/proj/logo.svg] names [.svg] and
    does not contain the path. *)
Lemma unsupported_message_lacks_path :
  let message := "Unsupported extension " +:+ dq +:+ ".svg" +:+ dq +:+ "." in
  @createModule Sample.host 1 "/proj/logo.svg" Sample.start
  = (Throw (Error message), Sample.start)
  ∧ includes ".svg" message = true
  ∧ includes "/proj/logo.svg" message = false.
Proof. split_and!; reflexivity. Qed.

Lemma unsupported_extension_aborts_witness :
  @build Sample.host 1 "/proj/logo.svg" "/proj/output" (Some "/proj/index.html")
         Sample.start
  = (Throw (Error ("Unsupported extension " +:+ dq +:+ ".svg" +:+ dq +:+ ".")),
     Sample.start).
Proof.
  apply (@unsupported_extension_aborts Sample.host 0 "/proj/logo.svg"
           "/proj/output" (Some "/proj/index.html") Sample.start);
    reflexivity.
Defined.






(** ** Resolving a request *)

(** The absolute path with the given segments: [/proj/src/a.js] for
    [proj], [src], [a.js]; the empty text for none, which stands for the
    root in front of a slash. *)
Fixpoint absolute (segments : list string) : string :=
  match segments with
  | [] => ""
  | s :: rest => "/" +:+ s +:+ absolute rest
  end.

(** The directories from [parent] down along [dirs]. *)
Fixpoint directories_down (parent : string) (dirs : list string) : list string :=
  parent :: match dirs with
            | [] => []
            | d :: rest => directories_down (parent +:+ "/" +:+ d) rest
            end.

(** The ancestor directories of a file in the directory [/dirs], from that
    directory up to the root. *)
Definition ancestor_directories (dirs : list string) : list string :=
  rev (directories_down "" dirs).

Definition slash_free (s : string) : Prop := has_char slash s = false.

Lemma split_plain s : slash_free s → split slash s = [s].
Proof.
  unfold slash_free. induction s as [|c s IH]; simpl; [done|].
  intros [Hc Hs]%orb_false_elim. apply bool_decide_eq_false in Hc.
  rewrite decide_False by done. by rewrite IH.
Qed.

Lemma split_app_slash s rest :
  slash_free s → split slash (s +:+ "/" +:+ rest) = s :: split slash rest.
Proof.
  unfold slash_free. induction s as [|c s IH].
  - intros _. rewrite append_nil_l. change ("/" +:+ rest) with (String slash rest).
    reflexivity.
  - cbn [has_char]. intros [Hc Hs]%orb_false_elim. apply bool_decide_eq_false in Hc.
    rewrite append_cons. cbn [split]. rewrite decide_False by done. by rewrite IH.
Qed.

Lemma split_app_absolute s segments :
  slash_free s → Forall slash_free segments →
  split slash (s +:+ absolute segments) = s :: segments.
Proof.
  intros Hs Hsegs. revert s Hs.
  induction Hsegs as [|t segments Ht _ IH]; intros s Hs; simpl.
  - rewrite append_nil_r. by apply split_plain.
  - rewrite split_app_slash by done. by rewrite IH.
Qed.

Lemma split_absolute segments :
  Forall slash_free segments → split slash (absolute segments) = "" :: segments.
Proof. intros. by rewrite <- (split_app_absolute "" segments). Qed.

Lemma join_absolute segments : join "/" ("" :: segments) = absolute segments.
Proof.
  induction segments as [|s rest IH]; [done|].
  simpl in *. rewrite append_nil_l. f_equal.
  destruct rest as [|t rest]; [by rewrite append_nil_r|].
  rewrite append_nil_l in IH. by rewrite IH.
Qed.

Lemma requestPaths_from_absolute segments i :
  requestPaths_from ("" :: segments) i
  = map (λ k, absolute (take k segments) +:+ "/node_modules") (rev (seq 0 i)).
Proof.
  induction i as [|i IH]; [done|].
  rewrite seq_S, rev_app_distr. cbn [requestPaths_from take rev app map plus].
  by rewrite join_absolute, IH.
Qed.

Lemma absolute_app a b : absolute (a ++ b) = absolute a +:+ absolute b.
Proof.
  induction a as [|s a IH]; [done|].
  simpl. by rewrite IH, !append_assoc.
Qed.

Lemma directories_down_absolute done dirs :
  directories_down (absolute done) dirs
  = map (λ k, absolute (done ++ take k dirs)) (seq 0 (S (length dirs))).
Proof.
  revert done. induction dirs as [|d dirs IH]; intros done.
  - simpl. by rewrite app_nil_r.
  - cbn [directories_down length].
    replace (absolute done +:+ "/" +:+ d) with (absolute (done ++ [d])).
    2: { rewrite absolute_app. simpl. by rewrite append_nil_r. }
    rewrite IH.
    change (seq 0 (S (S (length dirs)))) with (0 :: seq 1 (S (length dirs))).
    rewrite <- seq_shift. cbn [map take]. rewrite map_map, app_nil_r.
    f_equal.
    apply map_ext. intros k. by rewrite <- app_assoc.
Qed.

Section ResolveFacts.
Context `{Host}.

(** C5. A request that begins with a dot resolves to [path.join] of the
    directory of the requester and the request, which normalizes the
    result.  Any other request goes to [require.resolve] with the search
    paths made from the ancestor directories of the requester, its own
    directory first and the root last, each with [/node_modules] added;
    what [require.resolve] finds there is the result. *)
Theorem resolveRequest_spec (requester requestPath : string) :
  (first_is dot requestPath = true →
   resolveRequest requester requestPath
   = Ok (join2 (dirname requester) requestPath))
  ∧ (first_is dot requestPath = false →
     resolveRequest requester requestPath
     = match require_resolve requestPath (requestPaths requester) with
       | Some resolved => Ok resolved
       | None => Throw (MODULE_NOT_FOUND requestPath)
       end)
  ∧ ∀ dirs file,
      Forall slash_free (dirs ++ [file]) →
      requester = absolute (dirs ++ [file]) →
      requestPaths requester
      = map (λ d, d +:+ "/node_modules") (ancestor_directories dirs).
Proof.
  split_and!.
  - intros Hrel. unfold resolveRequest. by rewrite Hrel.
  - intros Hbare. unfold resolveRequest. by rewrite Hbare.
  - intros dirs file Hplain ->. unfold requestPaths.
    rewrite split_absolute by done.
    replace (length ("" :: dirs ++ [file]) - 1) with (S (length dirs)).
    2: { cbn [length]. rewrite length_app. simpl. lia. }
    rewrite requestPaths_from_absolute.
    unfold ancestor_directories.
    pose proof (directories_down_absolute [] dirs) as E.
    cbn [absolute app] in E. rewrite E.
    rewrite <- map_rev, map_map.
    apply map_ext_in. intros k Hk%in_rev%in_seq.
    by rewrite take_app_le by lia.
Qed.

End ResolveFacts.

Lemma resolveRequest_spec_witness :
  @resolveRequest Sample.host "/proj/src/a.js" "./b.js" = Ok "/proj/src/b.js"
  ∧ requestPaths "/proj/src/a.js"
    = ["/proj/src/node_modules"; "/proj/node_modules"; "/node_modules"].
Proof.
  destruct (@resolveRequest_spec Sample.host "/proj/src/a.js" "./b.js")
    as (Hrelative & _ & Hpaths).
  split.
  - by apply Hrelative.
  - apply (Hpaths ["proj"; "src"] "a.js"); [by repeat constructor|done].
Defined.


(** ** Stylesheet modules *)







Lemma append_length a b :
  String.length (a +:+ b) = String.length a + String.length b.
Proof.
  induction a as [|x a IH]; [done|]. rewrite append_cons. simpl. by rewrite IH.
Qed.

Section StyleFacts.
Context `{Host}.







End StyleFacts.



(** ** The runtime: one call per factory *)

Module RuntimeFacts.
Import Runtime.

(** Every factory that was called has its [exports] in the cache, and none
    was called twice. *)
Definition called_once (σ : rstate) : Prop :=
  NoDup (calls σ).*1
  ∧ ∀ moduleName exports,
      (moduleName, exports) ∈ calls σ →
      moduleCache σ !! moduleName = Some exports.

(** What a call of [require] may change. *)
Definition cache_grows (σ σ' : rstate) : Prop :=
  moduleCache σ ⊆ moduleCache σ'.

Definition callback_keeps (require : string → R value) : Prop :=
  ∀ moduleName σ r σ',
    require moduleName σ = (r, σ') →
    cache_grows σ σ' ∧ (called_once σ → called_once σ').

Lemma cache_grows_refl σ : cache_grows σ σ.
Proof. by unfold cache_grows. Qed.

Lemma kept σ : cache_grows σ σ ∧ (called_once σ → called_once σ).
Proof. split; [apply cache_grows_refl|done]. Qed.

Lemma eval_state env e σ r σ' : eval env e σ = (r, σ') → σ' = σ.
Proof.
  destruct e as [v|x|x key]; simpl.
  - by inversion 1.
  - unfold lift_option. destruct (env !! x); by inversion 1.
  - destruct (env !! x) as [[]|]; by inversion 1.
Qed.

Lemma run_factory_keeps require exports body :
  callback_keeps require →
  ∀ env σ r σ',
    run_factory require exports env body σ = (r, σ') →
    cache_grows σ σ' ∧ (called_once σ → called_once σ').
Proof.
  intros Hreq. induction body as [|s body IH]; intros env σ r σ' Hrun.
  - invert Hrun. by apply kept.
  - destruct s as [x moduleName|key e|e]; simpl in Hrun; unfold bind in Hrun.
    + destruct (require moduleName σ) as [r1 σ1] eqn:E1.
      apply Hreq in E1 as [G1 Hinv1].
      destruct r1; [|by invert Hrun..].
      apply IH in Hrun as [? ?]. split; [|by auto].
      unfold cache_grows in *. by etrans.
    + destruct (eval env e σ) as [r1 σ1] eqn:E1.
      apply eval_state in E1 as ->.
      destruct r1; [|invert Hrun; by apply kept..].
      by apply IH in Hrun.
    + destruct (eval env e σ) as [r1 σ1] eqn:E1.
      apply eval_state in E1 as ->.
      destruct r1; [|invert Hrun; by apply kept..].
      by apply IH in Hrun.
Qed.

Lemma require_S fuel modules moduleName σ :
  require (S fuel) modules moduleName σ =
    match moduleCache σ !! moduleName with
    | Some l => (Ok (VObject l), σ)
    | None =>
        if decide (moduleName ∈ Object_prototype)
        then (Ok (VBuiltin moduleName), σ)
        else
          let exports := length (objects σ) in
          let σ1 := mkRstate (<[moduleName := exports]> (moduleCache σ))
                             (objects σ ++ [∅]) (calls σ) (console σ) in
          match modules !! moduleName with
          | Some factory =>
              bind (run_factory (require fuel modules) exports ∅ factory)
                   (λ _, bind (moduleCache_get moduleName)
                              (λ v, ret (default VUndefined v)))
                   (mkRstate (moduleCache σ1) (objects σ1)
                             (calls σ1 ++ [(moduleName, exports)]) (console σ1))
          | None =>
              (Throw (TypeError "modules[moduleName] is not a function"), σ1)
          end
    end.
Proof.
  cbn [require]. unfold bind at 1, moduleCache_get at 1.
  destruct (moduleCache σ !! moduleName); [done|].
  case_decide; [done|].
  unfold bind at 1, new_object. unfold bind at 1, moduleCache_set.
  cbn [moduleCache objects calls console].
  destruct (modules !! moduleName) as [factory|]; [|done].
  unfold bind at 1. unfold bind at 1, record_call.
  cbn [moduleCache objects calls console]. 
  unfold bind at 2. done.
Qed.

Lemma require_keeps fuel modules : callback_keeps (require fuel modules).
Proof.
  induction fuel as [|fuel IH]; intros moduleName σ r σ' Hrun.
  - invert Hrun. by apply kept.
  - rewrite require_S in Hrun.
    destruct (moduleCache σ !! moduleName) as [l|] eqn:Hc;
      [invert Hrun; by apply kept|].
    case_decide; [invert Hrun; by apply kept|].
    set (exports := length (objects σ)) in *.
    assert (Hsub : moduleCache σ ⊆ <[moduleName := exports]> (moduleCache σ))
      by by apply insert_subseteq.
    destruct (modules !! moduleName) as [factory|].
    2: { invert Hrun. split; [done|]. intros [Hnd Hcalls].
         split; [done|]. intros n l Hin. simpl.
         eapply lookup_weaken; [by apply Hcalls|done]. }
    cbn [moduleCache objects calls console] in Hrun.
    set (σ2 := mkRstate _ _ _ _) in Hrun.
    assert (called_once σ → called_once σ2) as Hinv2.
    { intros [Hnd Hcalls]. split; simpl.
      - rewrite fmap_app. cbn [fmap list_fmap fst].
        apply NoDup_app. split_and!; [done| |apply NoDup_singleton].
        intros n Hn ->%list_elem_of_singleton.
        apply list_elem_of_fmap in Hn as ([n' l] & Hn' & Hin).
        apply Hcalls in Hin. simpl in *. congruence.
      - intros n l [Hin|Hin%list_elem_of_singleton]%elem_of_app.
        + eapply lookup_weaken; [by apply Hcalls|done].
        + invert Hin. apply lookup_insert_eq. }
    unfold bind at 1 in Hrun.
    destruct (run_factory _ _ _ _ σ2) as [r3 σ3] eqn:E3.
    eapply run_factory_keeps in E3 as [G3 Hinv3]; [|exact IH].
    assert (cache_grows σ σ3) by (unfold cache_grows in *; by etrans).
    destruct r3; [|invert Hrun; split; by auto..].
    unfold bind, moduleCache_get, ret in Hrun. invert Hrun. split; by auto.
Qed.

(** *** Termination *)

(** The factories that have not been called. *)
Definition uncalled (modules : gmap string (list stmt)) (σ : rstate)
  : gset string :=
  dom modules ∖ dom (moduleCache σ).

Definition require_callback_returns (n : nat) (modules : gmap string (list stmt))
           (require : string → R value) : Prop :=
  ∀ moduleName σ r σ',
    size (uncalled modules σ) < n → require moduleName σ = (r, σ') →
    r ≠ OutOfFuel.

Lemma uncalled_grows modules σ σ' :
  cache_grows σ σ' → size (uncalled modules σ') ≤ size (uncalled modules σ).
Proof.
  intros G. apply subseteq_size. unfold uncalled.
  apply subseteq_dom in G. set_solver.
Qed.

Lemma run_factory_returns n modules require exports body :
  callback_keeps require → require_callback_returns n modules require →
  ∀ env σ r σ',
    size (uncalled modules σ) < n →
    run_factory require exports env body σ = (r, σ') → r ≠ OutOfFuel.
Proof.
  intros Hk Hreq. induction body as [|s body IH]; intros env σ r σ' Hlt Hrun.
  - by invert Hrun.
  - destruct s as [x moduleName|key e|e]; simpl in Hrun; unfold bind in Hrun.
    + destruct (require moduleName σ) as [r1 σ1] eqn:E1.
      pose proof (Hreq _ _ _ _ Hlt E1). apply Hk in E1 as [G1 _].
      destruct r1; [|by invert Hrun|done].
      eapply IH; [|exact Hrun]. apply (uncalled_grows modules) in G1. lia.
    + destruct (eval env e σ) as [r1 σ1] eqn:E1.
      pose proof E1 as ->%eval_state.
      destruct r1; [by eapply IH; [|exact Hrun]|by invert Hrun|].
      destruct e as [v|y|y key']; simpl in E1; unfold lift_option in E1;
        [done|by destruct (env !! y)|by destruct (env !! y) as [[]|]].
    + destruct (eval env e σ) as [r1 σ1] eqn:E1.
      pose proof E1 as ->%eval_state.
      destruct r1; [by eapply IH; [|exact Hrun]|by invert Hrun|].
      destruct e as [v|y|y key']; simpl in E1; unfold lift_option in E1;
        [done|by destruct (env !! y)|by destruct (env !! y) as [[]|]].
Qed.

Lemma require_returns n modules : require_callback_returns n modules (require n modules).
Proof.
  induction n as [|n IH]; intros moduleName σ r σ' Hlt Hrun; [lia|].
  rewrite require_S in Hrun.
  destruct (moduleCache σ !! moduleName) as [l|] eqn:Hc; [by invert Hrun|].
  case_decide; [by invert Hrun|].
  destruct (modules !! moduleName) as [factory|] eqn:Hm; [|by invert Hrun].
  cbn [moduleCache objects calls console] in Hrun.
  set (σ2 := mkRstate _ _ _ _) in Hrun.
  assert (size (uncalled modules σ2) < n).
  { assert (uncalled modules σ2 ⊂ uncalled modules σ) as Hsub;
      [|apply subset_size in Hsub; lia].
    unfold uncalled, σ2. simpl. rewrite dom_insert_L.
    assert (moduleName ∈ dom modules) by (apply elem_of_dom; eauto).
    assert (moduleName ∉ dom (moduleCache σ)) by by apply not_elem_of_dom.
    set_solver. }
  unfold bind at 1 in Hrun.
  destruct (run_factory _ _ _ _ σ2) as [r3 σ3] eqn:E3.
  eapply run_factory_returns in E3; [|apply require_keeps|exact IH|done].
  destruct r3; [|by invert Hrun|done].
  unfold bind, moduleCache_get, ret in Hrun. by invert Hrun.
Qed.

(** C3. [require] puts the fresh [exports] into [moduleCache] before it
    calls the factory; a name that is in the cache, its factory finished or
    not, is answered with the cached object as it is, and nothing runs.  So
    in a run of [webpackStart] every factory is called at most once, with
    the object that the cache holds for it, and the run ends however the
    modules require each other. *)
Theorem require_caches_before_calling (modules : gmap string (list stmt)) :
  (∀ fuel moduleName σ exports,
     moduleCache σ !! moduleName = Some exports →
     require (S fuel) modules moduleName σ = (Ok (VObject exports), σ))
  ∧ (∀ fuel moduleName σ factory,
       moduleCache σ !! moduleName = None →
       moduleName ∉ Object_prototype →
       modules !! moduleName = Some factory →
       let exports := length (objects σ) in
       ∃ σ1, moduleCache σ1 !! moduleName = Some exports
             ∧ objects σ1 !! exports = Some ∅
             ∧ calls σ1 = calls σ ++ [(moduleName, exports)]
             ∧ require (S fuel) modules moduleName σ
               = bind (run_factory (require fuel modules) exports ∅ factory)
                      (λ _, bind (moduleCache_get moduleName)
                                 (λ v, ret (default VUndefined v))) σ1)
  ∧ (∀ fuel entry, called_once (webpackStart fuel modules entry).2)
  ∧ (∀ fuel entry, size modules < fuel →
                   (webpackStart fuel modules entry).1 ≠ OutOfFuel).
Proof.
  split_and!.
  - intros fuel moduleName σ exports Hc. by rewrite require_S, Hc.
  - intros fuel moduleName σ factory Hc Hp Hm exports.
    eexists. split_and!; [| | |rewrite require_S, Hc, decide_False, Hm by done;
                                reflexivity].
    + simpl. apply lookup_insert_eq.
    + simpl. by rewrite lookup_app_r, Nat.sub_diag.
    + done.
  - intros fuel entry. unfold webpackStart.
    destruct (require fuel modules entry _) as [r σ'] eqn:E.
    apply require_keeps in E as [_ Hinv]. apply Hinv.
    split; [constructor|]. by intros ?? ?%elem_of_nil.
  - intros fuel entry Hfuel. unfold webpackStart.
    destruct (require fuel modules entry _) as [r σ'] eqn:E.
    eapply require_returns in E; [done|].
    unfold uncalled. simpl. rewrite dom_empty_L, difference_empty_L.
    by rewrite size_dom.
Qed.

End RuntimeFacts.

(** In the cycle of the sample, [b.js] gets the [exports] of [a.js] with
    [early] set and [late] not yet. *)
Lemma require_caches_before_calling_witness :
  let run := Runtime.webpackStart 3 Sample.cycle_modules "/proj/src/a.js" in
  run.1 ≠ OutOfFuel
  ∧ RuntimeFacts.called_once run.2
  ∧ Runtime.calls run.2 = [("/proj/src/a.js", 0); ("/proj/src/b.js", 1)]
  ∧ Runtime.console run.2 = [Runtime.VNumber 1; Runtime.VUndefined].
Proof.
  destruct (RuntimeFacts.require_caches_before_calling Sample.cycle_modules)
    as (_ & _ & Honce & Hends).
  split_and!.
  - apply Hends. vm_compute. lia.
  - apply Honce.
  - by vm_compute.
  - by vm_compute.
Defined.

(** ** The loader: the objects and the import graph *)

Section GraphFacts.
Context `{Host}.















(** *** One object per path *)








(** *** The traversal of [collectModules] *)









(** *** The module map and the import graph *)

(** The script [p] has an import that resolves to [q]. *)
Definition imports (disk : gmap string string) (p q : string) : Prop :=
  ∃ text body specifiers request,
    disk !! p = Some text
    ∧ MODULE_LOADERS (extname p) = Some JSModule
    ∧ parseSync text = Some body
    ∧ Ast.ImportDeclaration specifiers request ∈ body
    ∧ resolveRequest p request = Ok q.















End GraphFacts.



(** ** The module-interface transform *)

Module TransformFacts.
Import Ast Transform.


(** *** Replacing the references of several bindings at once *)

























(** *** What the traversal must produce *)











(** *** The traversal meets it *)











Section traversal.
Context `{Host}.





End traversal.

(** *** What the expected program looks like *)










End TransformFacts.

Section InterfaceFacts.
Context `{Host}.
Import Ast Transform TransformFacts.



End InterfaceFacts.

